(** * MPEG audio frame headers and track header parsing (tagparser)

    A shallow embedding of [MpegAudioFrame] (mpegaudio/mpegaudioframe.cpp)
    and of [AbstractTrack::parseHeader] (abstracttrack.cpp).

    Unsigned 32-bit values are integers of [Z]; the header word is only ever
    masked and compared, so no wrap-around arises in the decoders.  The
    [double] arithmetic of [MpegAudioFrame::size] is IEEE-754 binary64,
    rendered with the executable specification of [SpecFloat]. *)

From Stdlib Require Import ZArith List Bool Lia QArith.
From Stdlib Require Import Strings.Byte.
From Stdlib Require Import Floats.SpecFloat.
From Stdlib Require Strings.Ascii Strings.String Numbers.DecimalString.
Import String.StringSyntax.
Import ListNotations.

Local Open Scope Z_scope.

(** ** Exceptions and stateful execution

    A member function mutates its object and the stream it reads from, and
    either returns or throws; what it had written before a [throw] stays
    written.  An [Exec S A] therefore maps a state to an outcome that carries
    the final state on both paths. *)

Inductive Exception : Type :=
| InvalidDataException  (* Media::InvalidDataException, derived from Media::Failure *)
| IosFailure.           (* std::ios_base::failure *)

Inductive Outcome (S A : Type) : Type :=
| Returned (a : A) (s : S)
| Thrown (e : Exception) (s : S).

Arguments Returned {S A} a s.
Arguments Thrown {S A} e s.

Definition Exec (S A : Type) : Type := S -> Outcome S A.

Definition ret {S A : Type} (a : A) : Exec S A := fun s => Returned a s.

Definition bind {S A B : Type} (c : Exec S A) (k : A -> Exec S B) : Exec S B :=
  fun s =>
    match c s with
    | Returned a s' => k a s'
    | Thrown e s' => Thrown e s'
    end.

Definition throw {S A : Type} (e : Exception) : Exec S A := fun s => Thrown e s.

Definition get {S : Type} : Exec S S := fun s => Returned s s.

Definition modify {S : Type} (f : S -> S) : Exec S unit := fun s => Returned tt (f s).

(** [if (c) { body }] *)
Definition when {S : Type} (c : bool) (body : Exec S unit) : Exec S unit :=
  if c then body else ret tt.

(** Runs a computation on a component [T] of the state [S]. *)
Definition zoom {S T A : Type} (proj : S -> T) (upd : T -> S -> S)
    (c : Exec T A) : Exec S A :=
  fun s =>
    match c (proj s) with
    | Returned a t => Returned a (upd t s)
    | Thrown e t => Thrown e (upd t s)
    end.

Definition finalState {S A : Type} (o : Outcome S A) : S :=
  match o with
  | Returned _ s => s
  | Thrown _ s => s
  end.

Definition returns {S A : Type} (o : Outcome S A) : bool :=
  match o with
  | Returned _ _ => true
  | Thrown _ _ => false
  end.

Definition throws {S A : Type} (e : Exception) (o : Outcome S A) : bool :=
  match o with
  | Returned _ _ => false
  | Thrown InvalidDataException _ =>
      match e with InvalidDataException => true | IosFailure => false end
  | Thrown IosFailure _ =>
      match e with IosFailure => true | InvalidDataException => false end
  end.

Declare Scope exec_scope.
Delimit Scope exec_scope with exec.
Notation "x <- c ;; k" := (bind c (fun x => k))
  (at level 61, c at next level, right associativity) : exec_scope.
Notation "c ;; k" := (bind c (fun _ => k))
  (at level 61, right associativity) : exec_scope.

(** ** The input stream and the binary reader

    A [std::istream] over a byte sequence with its get position, and the
    big-endian reads of [IoUtilities::BinaryReader].  The streams of the
    library throw [std::ios_base::failure] on a short read.  [reads] records
    the offset and the length of every read that was served, in order: it is
    how the statements below say where a parser looks. *)

Module Io.

Record istream : Type := {
  content : list byte;
  gpos : Z;
  reads : list (Z * Z)
}.

Definition open (bs : list byte) : istream :=
  {| content := bs; gpos := 0; reads := [] |}.

Definition withPos (s : istream) (p : Z) : istream :=
  {| content := content s; gpos := p; reads := reads s |}.

(** The unsigned value of a big-endian byte sequence. *)
Definition beValue (bs : list byte) : Z :=
  fold_left (fun acc b => acc * 256 + Z.of_N (Byte.to_N b)) bs 0.

(** The [n] bytes at offset [p], when the stream holds them all. *)
Definition bytesAt (bs : list byte) (p : Z) (n : nat) : option (list byte) :=
  if (0 <=? p) && (p + Z.of_nat n <=? Z.of_nat (length bs))
  then Some (firstn n (skipn (Z.to_nat p) bs))
  else None.

Definition readBE (n : nat) : Exec istream Z :=
  fun s =>
    match bytesAt (content s) (gpos s) n with
    | Some chunk =>
        Returned (beValue chunk)
          {| content := content s;
             gpos := gpos s + Z.of_nat n;
             reads := reads s ++ [(gpos s, Z.of_nat n)] |}
    | None => Thrown IosFailure s
    end.

Definition readUInt32BE : Exec istream Z := readBE 4.
Definition readUInt64BE : Exec istream Z := readBE 8.

(** [seekg(off, ios_base::cur)] *)
Definition seekgCur (off : Z) : Exec istream unit :=
  fun s => Returned tt (withPos s (gpos s + off)).

(** [seekg(off, ios_base::beg)] *)
Definition seekgBeg (off : Z) : Exec istream unit :=
  fun s => Returned tt (withPos s off).

End Io.

(** ** IEEE-754 binary64, the [double] of the source *)

Module Double.

Definition prec : Z := 53.
Definition emax : Z := 1024.

(** [static_cast<double>(n)] for an unsigned integer [n], and the literals
    [1024.0] and [8.0]. *)
Definition ofZ (n : Z) : spec_float := binary_normalize prec emax n 0 false.

Definition mul : spec_float -> spec_float -> spec_float := SFmul prec emax.
Definition div : spec_float -> spec_float -> spec_float := SFdiv prec emax.
Definition add : spec_float -> spec_float -> spec_float := SFadd prec emax.

(** [static_cast<uint32>(x)]: the fractional part is discarded; the
    conversion is undefined ([None]) when the truncated value does not fit,
    and for infinities and NaN. *)
Definition toUInt32 (x : spec_float) : option Z :=
  match x with
  | S754_zero _ => Some 0
  | S754_finite sign m e =>
      let magnitude := if 0 <=? e then Z.pos m * 2 ^ e else Z.pos m / 2 ^ (- e) in
      if sign then (if magnitude =? 0 then Some 0 else None)
      else if magnitude <? 2 ^ 32 then Some magnitude else None
  | S754_infinity _ | S754_nan => None
  end.

End Double.

(** ** The frame header decoders *)

Module MpegAudioFrame.

(** [enum class MpegChannelMode] as the source names its values. *)
Inductive MpegChannelMode : Type :=
| Stereo
| JointStereo
| DualChannel
| SingleChannel
| Unspecifed.

(** [const uint32 MpegAudioFrame::m_sync = 0xFFE00000u] *)
Definition m_sync : Z := 0xFFE00000.

(** [const uint64 MpegAudioFrame::m_xingHeaderOffset = 0x24] *)
Definition m_xingHeaderOffset : Z := 0x24.

(** [const int MpegAudioFrame::m_bitrateTable[0x2][0x3][0xF]] *)
Definition m_bitrateTable : list (list (list Z)) :=
  [ [ [0;32;64;96;128;160;192;224;256;288;320;352;384;416;448];
      [0;32;48;56;64;80;96;112;128;160;192;224;256;320;384];
      [0;32;40;48;56;64;80;96;112;128;160;192;224;256;320] ];
    [ [0;32;48;56;64;80;96;112;128;144;160;176;192;224;256];
      [0;8;16;24;32;40;48;56;64;80;96;112;128;144;160];
      [0;8;16;24;32;40;48;56;64;80;96;112;128;144;160] ] ].

(** [double MpegAudioFrame::mpegVersion() const]: the results 1.0, 2.0, 2.5
    and 0.0 as rationals. *)
Definition mpegVersion (m_header : Z) : Q :=
  match Z.land m_header 0x180000 with
  | 0x180000 => 1 # 1
  | 0x100000 => 2 # 1
  | 0x0 => 5 # 2
  | _ => 0 # 1
  end.

(** [int MpegAudioFrame::layer() const] *)
Definition layer (m_header : Z) : Z :=
  match Z.land m_header 0x60000 with
  | 0x60000 => 1
  | 0x40000 => 2
  | 0x20000 => 3
  | _ => 0
  end.

(** [uint32 MpegAudioFrame::sampelRate() const].  An inner [switch] without a
    matching label falls to [break] and then to the final [return 0].  The
    label [case 0x100000:] of the last inner switch lacks the [u] suffix; the
    [int] constant is converted to the type of the switched [uint32]
    expression, so it is the same label value. *)
Definition sampelRate (m_header : Z) : Z :=
  match Z.land m_header 0xc00 with
  | 0xc00 => 0
  | 0x800 =>
      match Z.land m_header 0x180000 with
      | 0x180000 => 32000
      | 0x100000 => 16000
      | 0x0 => 8000
      | _ => 0
      end
  | 0x400 =>
      match Z.land m_header 0x180000 with
      | 0x180000 => 48000
      | 0x100000 => 24000
      | 0x0 => 12000
      | _ => 0
      end
  | 0x0 =>
      match Z.land m_header 0x180000 with
      | 0x180000 => 44100
      | 0x100000 => 22050
      | 0x0 => 11025
      | _ => 0
      end
  | _ => 0
  end.

(** [uint32 MpegAudioFrame::sampleCount() const].  In the layer III case an
    unmatched version falls through [default] to the final [return 0]. *)
Definition sampleCount (m_header : Z) : Z :=
  match Z.land m_header 0x60000 with
  | 0x60000 => 384
  | 0x40000 => 1152
  | 0x20000 =>
      match Z.land m_header 0x180000 with
      | 0x180000 => 1152
      | 0x100000 | 0x0 => 576
      | _ => 0
      end
  | _ => 0
  end.


(** The data members of [MpegAudioFrame]. *)
Record Frame : Type := {
  m_header : Z;
  m_xingHeader : Z;
  m_xingHeaderFlags : Z;
  m_xingFramefield : Z;
  m_xingBytesfield : Z;
  m_xingQualityIndicator : Z
}.

(** A frame before [parseHeader]: every member is zero. *)
Definition emptyFrame : Frame :=
  {| m_header := 0; m_xingHeader := 0; m_xingHeaderFlags := 0;
     m_xingFramefield := 0; m_xingBytesfield := 0;
     m_xingQualityIndicator := 0 |}.

(** The member functions that the class declaration defines inline
    (mpegaudio/mpegaudioframe.h).  The functions of mpegaudioframe.cpp call
    them; the header is not among the sources, so they form an interface of
    which the code below is a client. *)
Class InlineMembers : Type := {
  isValid : Frame -> bool;
  bitrate : Frame -> Z;
  paddingSize : Frame -> Z;
  isXingHeaderAvailable : Frame -> bool;
  isXingFramefieldPresent : Frame -> bool;
  isXingBytesfieldPresent : Frame -> bool;
  isXingTocFieldPresent : Frame -> bool;
  isXingQualityIndicatorFieldPresent : Frame -> bool
}.

(** The expression that both live cases of [size()] return,
    [static_cast<uint32>(((static_cast<double>(bitrate()) * 1024.0 / 8.0)
       / static_cast<double>(sampelRate())) * static_cast<double>(sampleCount())
       + static_cast<double>(paddingSize()))],
    on the results [b], [sr], [sc] and [p] of the four member calls;
    [scaled] is its left summand. *)
Definition scaled (b sr sc : Z) : spec_float :=
  Double.mul
    (Double.div
       (Double.div (Double.mul (Double.ofZ b) (Double.ofZ 1024))
                   (Double.ofZ 8))
       (Double.ofZ sr))
    (Double.ofZ sc).

Definition sizeExpr (b sr sc p : Z) : option Z :=
  Double.toUInt32 (Double.add (scaled b sr sc) (Double.ofZ p)).

Section Members.

Context {members : InlineMembers}.

(** [MpegChannelMode MpegAudioFrame::channelMode() const] *)
Definition channelMode (f : Frame) : MpegChannelMode :=
  if isValid f then
    match Z.land (m_header f) 0xc0 with
    | 0xc0 => SingleChannel
    | 0x80 => DualChannel
    | 0x40 => JointStereo
    | 0x00 => Stereo
    | _ => Unspecifed
    end
  else Unspecifed.

(** [uint32 MpegAudioFrame::size() const]; [None] where the conversion of the
    [double] to [uint32] is undefined. *)
Definition size (f : Frame) : option Z :=
  let h := m_header f in
  match Z.land h 0x60000 with
  | 0x60000 =>
      sizeExpr (bitrate f) (sampelRate h) (sampleCount h) (paddingSize f)
  | 0x40000 | 0x20000 =>
      sizeExpr (bitrate f) (sampelRate h) (sampleCount h) (paddingSize f)
  | _ => Some 0
  end.

(** The state [parseHeader] works on: the frame object and the stream of the
    reader passed by reference. *)
Record Env : Type := { this : Frame; stream : Io.istream }.

Definition onStream {A : Type} (c : Exec Io.istream A) : Exec Env A :=
  zoom stream (fun s env => {| this := this env; stream := s |}) c.

Definition assign (upd : Frame -> Frame) : Exec Env unit :=
  modify (fun env => {| this := upd (this env); stream := stream env |}).

Definition self : Exec Env Frame :=
  fun env => Returned (this env) env.

Definition set_header (v : Z) (f : Frame) : Frame :=
  {| m_header := v; m_xingHeader := m_xingHeader f;
     m_xingHeaderFlags := m_xingHeaderFlags f;
     m_xingFramefield := m_xingFramefield f;
     m_xingBytesfield := m_xingBytesfield f;
     m_xingQualityIndicator := m_xingQualityIndicator f |}.

Definition set_xingHeader (v : Z) (f : Frame) : Frame :=
  {| m_header := m_header f; m_xingHeader := v;
     m_xingHeaderFlags := m_xingHeaderFlags f;
     m_xingFramefield := m_xingFramefield f;
     m_xingBytesfield := m_xingBytesfield f;
     m_xingQualityIndicator := m_xingQualityIndicator f |}.

Definition set_xingHeaderFlags (v : Z) (f : Frame) : Frame :=
  {| m_header := m_header f; m_xingHeader := m_xingHeader f;
     m_xingHeaderFlags := v;
     m_xingFramefield := m_xingFramefield f;
     m_xingBytesfield := m_xingBytesfield f;
     m_xingQualityIndicator := m_xingQualityIndicator f |}.

Definition set_xingFramefield (v : Z) (f : Frame) : Frame :=
  {| m_header := m_header f; m_xingHeader := m_xingHeader f;
     m_xingHeaderFlags := m_xingHeaderFlags f;
     m_xingFramefield := v;
     m_xingBytesfield := m_xingBytesfield f;
     m_xingQualityIndicator := m_xingQualityIndicator f |}.

Definition set_xingBytesfield (v : Z) (f : Frame) : Frame :=
  {| m_header := m_header f; m_xingHeader := m_xingHeader f;
     m_xingHeaderFlags := m_xingHeaderFlags f;
     m_xingFramefield := m_xingFramefield f;
     m_xingBytesfield := v;
     m_xingQualityIndicator := m_xingQualityIndicator f |}.

Definition set_xingQualityIndicator (v : Z) (f : Frame) : Frame :=
  {| m_header := m_header f; m_xingHeader := m_xingHeader f;
     m_xingHeaderFlags := m_xingHeaderFlags f;
     m_xingFramefield := m_xingFramefield f;
     m_xingBytesfield := m_xingBytesfield f;
     m_xingQualityIndicator := v |}.

Local Open Scope exec_scope.

(** The block guarded by [isXingHeaderAvailable()]. *)
Definition parseXingFields : Exec Env unit :=
  f <- self ;;
  when (isXingFramefieldPresent f)
    (v <- onStream Io.readUInt32BE ;; assign (set_xingFramefield v)) ;;
  f <- self ;;
  when (isXingBytesfieldPresent f)
    (v <- onStream Io.readUInt32BE ;; assign (set_xingBytesfield v)) ;;
  f <- self ;;
  when (isXingTocFieldPresent f)
    (onStream (Io.seekgCur 64)) ;;
  f <- self ;;
  when (isXingQualityIndicatorFieldPresent f)
    (v <- onStream Io.readUInt32BE ;; assign (set_xingQualityIndicator v)).

(** [void MpegAudioFrame::parseHeader(BinaryReader &reader)] *)
Definition parseHeader : Exec Env unit :=
  h <- onStream Io.readUInt32BE ;;
  assign (set_header h) ;;
  onStream (Io.seekgCur (m_xingHeaderOffset - 4)) ;;
  x <- onStream Io.readUInt64BE ;;
  assign (set_xingHeader x) ;;
  assign (set_xingHeaderFlags (Z.land x 0xffffffff)) ;;
  f <- self ;;
  when (isXingHeaderAvailable f) parseXingFields ;;
  f <- self ;;
  if negb (isValid f) then throw InvalidDataException else ret tt.

End Members.

(** *** The inline members, from the specification *)

(** Modelled from the spec: [isValid()] is defined in
    mpegaudio/mpegaudioframe.h, which is not among the sources.  The
    specification has "Sync word: top 11 bits of a 32-bit header all set" and
    "frames whose bitrate index is 1111 are rejected as invalid"; the sync
    word is [m_sync] and the bitrate index is the field [0xf000]. *)
Definition specIsValid (f : Frame) : bool :=
  (Z.land (m_header f) m_sync =? m_sync)
  && negb (Z.land (m_header f) 0xf000 =? 0xf000).

(** Modelled from the spec: [bitrate()] is defined in
    mpegaudio/mpegaudioframe.h, which is not among the sources.  "Bits encode
    MPEG version, layer, bitrate index" and the "lookup tables are fixed by
    the MPEG spec": the entry of [m_bitrateTable] in the row of the version
    (MPEG 1, or MPEG 2 and 2.5), of the layer, at the bitrate index; 0 when
    the version or the layer is unknown or the index has no entry. *)
Definition specBitrate (f : Frame) : Z :=
  let h := m_header f in
  if Qeq_bool (mpegVersion h) (0 # 1) || (layer h =? 0) then 0
  else
    let byVersion :=
      nth (if Qeq_bool (mpegVersion h) (1 # 1) then 0%nat else 1%nat)
          m_bitrateTable [] in
    let byLayer := nth (Z.to_nat (layer h - 1)) byVersion [] in
    nth (Z.to_nat (Z.shiftr (Z.land h 0xf000) 12)) byLayer 0.

(** Modelled from the spec: [paddingSize()] is defined in
    mpegaudio/mpegaudioframe.h, which is not among the sources.  The frame
    size formulas of the specification add "padding", the padding bit of the
    header (bit [0x200], after the sample rate index), as 0 or 1. *)
Definition specPaddingSize (f : Frame) : Z :=
  if Z.land (m_header f) 0x200 =? 0 then 0 else 1.

(** Modelled from the spec: [isXingHeaderAvailable()] is defined in
    mpegaudio/mpegaudioframe.h, which is not among the sources.  "The
    Xing/Info ... side-data": the upper half of the 64-bit word read at the
    side-data offset is the tag [Xing] or [Info]; the lower half is the flag
    word, as [parseHeader] takes it. *)
Definition specIsXingHeaderAvailable (f : Frame) : bool :=
  let tag := Z.shiftr (m_xingHeader f) 32 in
  (tag =? 0x58696e67) || (tag =? 0x496e666f).

(** Modelled from the spec: the four flag tests are defined in
    mpegaudio/mpegaudioframe.h, which is not among the sources.  "optional
    frame count, byte count, TOC (100 bytes), quality indicator - each
    guarded by a flag word": bits 0 to 3 of the flag word, in that order. *)
Definition specXingFlag (bit : Z) (f : Frame) : bool :=
  Z.testbit (m_xingHeaderFlags f) bit.

#[export] Instance specMembers : InlineMembers := {|
  isValid := specIsValid;
  bitrate := specBitrate;
  paddingSize := specPaddingSize;
  isXingHeaderAvailable := specIsXingHeaderAvailable;
  isXingFramefieldPresent := specXingFlag 0;
  isXingBytesfieldPresent := specXingFlag 1;
  isXingTocFieldPresent := specXingFlag 2;
  isXingQualityIndicatorFieldPresent := specXingFlag 3
|}.

(** The frame size as the specification words it: "for layer I,
    (12*bitrate/sample_rate + padding)*4; for layers II/III,
    (144*bitrate/sample_rate + padding)".  [unit] is the number of bit/s that
    one unit of the decoded bitrate stands for. *)
Definition specFrameSize {members : InlineMembers} (unit : Z) (f : Frame) : Z :=
  let h := m_header f in
  if layer h =? 1
  then (12 * (unit * bitrate f) / sampelRate h + paddingSize f) * 4
  else 144 * (unit * bitrate f) / sampelRate h + paddingSize f.

End MpegAudioFrame.

(** ** Tracks *)

Module AbstractTrack.

Section Track.

(** The state of the base class [StatusProvider] and the members that
    [parseHeader] does not touch (format, bitrate, sample rate, ... and those
    of the derived class). *)
Variables Status Fields : Type.

Record Track : Type := {
  m_istream : Io.istream;
  m_startOffset : Z;
  m_headerValid : bool;
  status : Status;
  fields : Fields
}.

(** [StatusProvider::invalidateStatus()] of the base class, which knows no
    member of the track. *)
Variable invalidateStatus : Status -> Status.

(** The pure virtual [internalParseHeader()] of the derived class. *)
Variable internalParseHeader : Exec Track unit.

Definition set_status (f : Status -> Status) (t : Track) : Track :=
  {| m_istream := m_istream t; m_startOffset := m_startOffset t;
     m_headerValid := m_headerValid t; status := f (status t);
     fields := fields t |}.

Definition set_headerValid (b : bool) (t : Track) : Track :=
  {| m_istream := m_istream t; m_startOffset := m_startOffset t;
     m_headerValid := b; status := status t; fields := fields t |}.

Definition set_istream (s : Io.istream) (t : Track) : Track :=
  {| m_istream := s; m_startOffset := m_startOffset t;
     m_headerValid := m_headerValid t; status := status t;
     fields := fields t |}.

Local Open Scope exec_scope.

(** [try { body } catch(Failure &) { throw; }]: a caught exception is thrown
    again and any other passes through, so the outcome is that of [body]. *)
Definition tryRethrow {A : Type} (body : Exec Track A) : Exec Track A :=
  fun t =>
    match body t with
    | Returned a t' => Returned a t'
    | Thrown e t' => Thrown e t'
    end.

(** [void AbstractTrack::parseHeader()] *)
Definition parseHeader : Exec Track unit :=
  modify (set_status invalidateStatus) ;;
  modify (set_headerValid false) ;;
  t <- get ;;
  zoom m_istream set_istream (Io.seekgBeg (m_startOffset t)) ;;
  tryRethrow (internalParseHeader ;; modify (set_headerValid true)).

(** The track as [internalParseHeader] finds it. *)
Definition prepared (t : Track) : Track :=
  set_istream (Io.withPos (m_istream t) (m_startOffset t))
    (set_headerValid false (set_status invalidateStatus t)).

End Track.

(** *** What a track reports about itself *)

Local Open Scope string_scope.

(** The values of [enum class MediaType] that [mediaTypeName()] names;
    [Unlisted] stands for any other value of the enumeration, which the
    switch sends to [default]. *)
Inductive MediaType : Type :=
| Audio
| Video
| Text
| Hint
| Unknown
| Unlisted.

(** [const char *AbstractTrack::mediaTypeName() const] *)
Definition mediaTypeName (m_mediaType : MediaType) : String.string :=
  match m_mediaType with
  | Audio => "Audio"
  | Video => "Video"
  | Text => "Subititle"
  | Hint => "Hint"
  | Unknown => "Other"
  | Unlisted => String.EmptyString
  end.

(** The double quote character. *)
Definition quote : String.string :=
  String.String (Ascii.ascii_of_N 34) String.EmptyString.

(** [ss << n] for an unsigned integer: its decimal digits. *)
Definition decimal (n : N) : String.string :=
  DecimalString.NilEmpty.string_of_uint (N.to_uint n).

(** [!s.empty()] *)
Definition nonEmpty (s : String.string) : bool :=
  match s with
  | String.EmptyString => false
  | String.String _ _ => true
  end.

(** [string AbstractTrack::label() const], on the results of [id()],
    [mediaTypeName()], [name()] and [language()]. *)
Definition label (id : N) (m_mediaType : MediaType)
    (name language : String.string) : String.string :=
  let ss := String.append "ID: " (decimal id) in
  let ss := String.append ss (String.append ", type: " (mediaTypeName m_mediaType)) in
  let ss :=
    if nonEmpty name
    then String.append ss
           (String.append ", name: " (String.append quote (String.append name quote)))
    else ss in
  if nonEmpty language && negb (String.eqb language "und")
  then String.append ss
         (String.append ", language: "
            (String.append quote (String.append language quote)))
  else ss.

(** The text of a C string: the characters before the first NUL.  It is
    what a caller reads from a [const char *], and so from [s.c_str()]. *)
Fixpoint cstr (s : String.string) : String.string :=
  match s with
  | String.EmptyString => String.EmptyString
  | String.String c rest =>
      if Ascii.eqb c Ascii.zero then String.EmptyString
      else String.String c (cstr rest)
  end.

(** [const char *AbstractTrack::formatName() const], on the results of
    [m_format]'s conversion to [bool] and of [m_format.name()], a
    [const char *]; [m_formatName] is a [std::string], tested with [empty()]
    and returned through [c_str()]. *)
Definition formatName (formatKnown : bool) (builtinName m_formatName : String.string)
    : String.string :=
  if formatKnown || negb (nonEmpty m_formatName) then cstr builtinName
  else cstr m_formatName.

(** [const char *AbstractTrack::formatAbbreviation() const], on the result
    of [m_format.abbreviation()], a [const char *] of which [*abbr] tests the
    first character; [m_formatId] is a [std::string], tested with [empty()]
    and returned through [c_str()]. *)
Definition formatAbbreviation (abbr m_formatId : String.string) : String.string :=
  if nonEmpty (cstr abbr) || negb (nonEmpty m_formatId) then cstr abbr
  else cstr m_formatId.

Arguments m_istream {Status Fields} t.
Arguments m_startOffset {Status Fields} t.
Arguments m_headerValid {Status Fields} t.
Arguments status {Status Fields} t.
Arguments fields {Status Fields} t.
Arguments set_istream {Status Fields} s t.
Arguments set_headerValid {Status Fields} b t.
Arguments set_status {Status Fields} f t.
Arguments parseHeader {Status Fields} invalidateStatus internalParseHeader.
Arguments prepared {Status Fields} invalidateStatus t.

End AbstractTrack.

(** ** A derived track over one frame header

    A minimal derived class, to run [AbstractTrack::parseHeader] on: its
    [internalParseHeader] parses one MPEG audio frame header from the stream
    of the track into its only member. *)

Module FrameTrack.

Definition Track : Type := AbstractTrack.Track unit MpegAudioFrame.Frame.

Definition toEnv (t : Track) : MpegAudioFrame.Env :=
  {| MpegAudioFrame.this := AbstractTrack.fields t;
     MpegAudioFrame.stream := AbstractTrack.m_istream t |}.

Definition ofEnv (env : MpegAudioFrame.Env) (t : Track) : Track :=
  {| AbstractTrack.m_istream := MpegAudioFrame.stream env;
     AbstractTrack.m_startOffset := AbstractTrack.m_startOffset t;
     AbstractTrack.m_headerValid := AbstractTrack.m_headerValid t;
     AbstractTrack.status := AbstractTrack.status t;
     AbstractTrack.fields := MpegAudioFrame.this env |}.

Definition internalParseHeader : Exec Track unit :=
  zoom toEnv ofEnv (MpegAudioFrame.parseHeader (members := MpegAudioFrame.specMembers)).

Definition parseHeader : Exec Track unit :=
  AbstractTrack.parseHeader (fun st => st) internalParseHeader.

(** A track at [startOffset] of the bytes [bs], whose stream stands at
    [pos]. *)
Definition make (bs : list byte) (startOffset pos : Z) (valid : bool) : Track :=
  {| AbstractTrack.m_istream := Io.withPos (Io.open bs) pos;
     AbstractTrack.m_startOffset := startOffset;
     AbstractTrack.m_headerValid := valid;
     AbstractTrack.status := tt;
     AbstractTrack.fields := MpegAudioFrame.emptyFrame |}.

End FrameTrack.

(** ** Observations on a parse *)

Module Observe.

Import MpegAudioFrame.

Section Members.

Context {members : InlineMembers}.

(** What [parseHeader] does once the header word and the side-data word are
    stored: the guarded block and the validity check. *)
Definition afterSideData : Exec Env unit :=
  bind self (fun f =>
  bind (when (isXingHeaderAvailable f) parseXingFields) (fun _ =>
  bind self (fun f =>
  if negb (isValid f) then throw InvalidDataException else ret tt))).

(** The state in which [afterSideData] starts, for the header word [h] and
    the side-data word [x] read from a stream that stood at [p]. *)
Definition sideDataRead (env : Env) (h x : Z) : Env :=
  let p := Io.gpos (stream env) in
  {| this :=
       set_xingHeaderFlags (Z.land x 0xffffffff)
         (set_xingHeader x (set_header h (this env)));
     stream :=
       {| Io.content := Io.content (stream env);
          Io.gpos := p + 44;
          Io.reads := Io.reads (stream env) ++ [(p, 4); (p + 36, 8)] |} |}.

(** A fresh frame parsed from the bytes [bs]. *)
Definition parsed (bs : list byte) : Outcome Env unit :=
  parseHeader {| this := emptyFrame; stream := Io.open bs |}.

(** The offset of the 64-bit read, the second read of a parse: where
    [parseHeader] looks for the side data, counted from the frame start. *)
Definition sideDataOffset (bs : list byte) : option Z :=
  match Io.reads (stream (finalState (parsed bs))) with
  | _ :: (p, 8) :: _ => Some p
  | _ => None
  end.

End Members.

End Observe.

(** ** The values [size()] is computed from *)

Module SizeTable.

(** The nonzero results of [sampelRate()] and of [sampleCount()]. *)
Definition sampleRates : list Z :=
  [44100; 48000; 32000; 22050; 24000; 16000; 11025; 12000; 8000].

Definition sampleCounts : list Z := [384; 1152; 576].

(** The entries of [m_bitrateTable]. *)
Definition bitrates : list Z := concat (concat MpegAudioFrame.m_bitrateTable).

(** The padding sizes 0 to 4. *)
Definition paddings : list Z := [0; 1; 2; 3; 4].

(** The conversion of [x + p] yields the integer [q + p]. *)
Definition exact (x : spec_float) (q p : Z) : bool :=
  match Double.toUInt32 (Double.add x (Double.ofZ p)) with
  | Some v => v =? q + p
  | None => false
  end.

(** The [double] expression of [size()] yields the integer quotient, for
    every padding size. *)
Definition check (t : Z * (Z * Z)) : bool :=
  let '(b, (sr, sc)) := t in
  let x := MpegAudioFrame.scaled b sr sc in
  forallb (exact x (128 * b * sc / sr)) paddings.

Definition cases : list (Z * (Z * Z)) :=
  list_prod bitrates (list_prod sampleRates sampleCounts).

End SizeTable.

(** An infinity or a NaN. *)
Definition notFinite (x : spec_float) : Prop :=
  match x with
  | S754_infinity _ | S754_nan => True
  | S754_zero _ | S754_finite _ _ _ => False
  end.

(** ** Sample streams *)

(** An MPEG 1 layer III frame header (128 kbit/s, 44100 Hz, stereo), the gap
    up to the side data, and a [Xing] tag whose flag word announces all four
    fields: frame count 7, byte count 4096, a table of contents of one
    hundred bytes [01], and the quality indicator 80. *)
Definition xingStream : list byte :=
  [xff; xfb; x90; x00] ++ repeat x00 32
  ++ [x58; x69; x6e; x67; x00; x00; x00; x0f]
  ++ [x00; x00; x00; x07] ++ [x00; x00; x10; x00]
  ++ repeat x01 100 ++ [x00; x00; x00; x50].

(** Forty-four bytes led by the header word [h3 h2 h1 h0], no side data. *)
Definition plainStream (h3 h2 h1 h0 : byte) : list byte :=
  [h3; h2; h1; h0] ++ repeat x00 40.

(** * Properties *)

(** ** Bit fields of a 32-bit word *)

Module Bits.

(** The field of width [w] at bit [k], selected by the mask
    [(2^w - 1) << k]. *)
Lemma land_field (h k w : Z) :
  0 <= k -> 0 <= w ->
  Z.land h (Z.shiftl (Z.ones w) k) = Z.shiftl (Z.shiftr h k mod 2 ^ w) k.
Proof.
  intros Hk Hw. rewrite <- Z.land_ones by assumption.
  apply Z.bits_inj'. intros n Hn.
  rewrite Z.land_spec.
  destruct (Z_lt_ge_dec n k) as [Hlt | Hge].
  - rewrite !Z.shiftl_spec_low by assumption. apply andb_false_r.
  - rewrite !Z.shiftl_spec by assumption.
    rewrite Z.land_spec, Z.shiftr_spec by lia.
    replace (n - k + k) with n by lia. reflexivity.
Qed.

Lemma field_value (h k w : Z) :
  0 <= k -> 0 <= w ->
  exists m, 0 <= m < 2 ^ w /\ Z.land h (Z.shiftl (Z.ones w) k) = Z.shiftl m k.
Proof.
  intros Hk Hw. exists (Z.shiftr h k mod 2 ^ w). split.
  - apply Z.mod_pos_bound. apply Z.pow_pos_nonneg; lia.
  - apply land_field; assumption.
Qed.

(** A two-bit field holds one of four values. *)
Lemma field2_cases (h k : Z) :
  0 <= k ->
  Z.land h (Z.shiftl 3 k) = 0
  \/ Z.land h (Z.shiftl 3 k) = Z.shiftl 1 k
  \/ Z.land h (Z.shiftl 3 k) = Z.shiftl 2 k
  \/ Z.land h (Z.shiftl 3 k) = Z.shiftl 3 k.
Proof.
  intros Hk.
  destruct (field_value h k 2 Hk ltac:(lia)) as (m & Hm & E).
  change (Z.ones 2) with 3 in E. change (2 ^ 2) with 4 in Hm.
  rewrite E.
  assert (C : m = 0 \/ m = 1 \/ m = 2 \/ m = 3) by lia.
  destruct C as [-> | [-> | [-> | ->]]].
  - left. apply Z.shiftl_0_l.
  - right; left; reflexivity.
  - right; right; left; reflexivity.
  - right; right; right; reflexivity.
Qed.

End Bits.

Import MpegAudioFrame.

(** ** Header fields *)

Lemma version_bits (h : Z) :
  Z.land h 0x180000 = 0x0 \/ Z.land h 0x180000 = 0x80000
  \/ Z.land h 0x180000 = 0x100000 \/ Z.land h 0x180000 = 0x180000.
Proof. apply (Bits.field2_cases h 19). lia. Qed.

Lemma layer_bits (h : Z) :
  Z.land h 0x60000 = 0x0 \/ Z.land h 0x60000 = 0x20000
  \/ Z.land h 0x60000 = 0x40000 \/ Z.land h 0x60000 = 0x60000.
Proof. apply (Bits.field2_cases h 17). lia. Qed.

Lemma rate_bits (h : Z) :
  Z.land h 0xc00 = 0x0 \/ Z.land h 0xc00 = 0x400
  \/ Z.land h 0xc00 = 0x800 \/ Z.land h 0xc00 = 0xc00.
Proof. apply (Bits.field2_cases h 10). lia. Qed.

(** Splits on the value of the layer, version and sample rate fields. *)
Ltac split_fields h :=
  let E := fresh "E" in
  destruct (layer_bits h) as [E | [E | [E | E]]];
  let V := fresh "V" in
  destruct (version_bits h) as [V | [V | [V | V]]];
  let R := fresh "R" in
  destruct (rate_bits h) as [R | [R | [R | R]]].

Lemma layer_1_bits (h : Z) : layer h = 1 <-> Z.land h 0x60000 = 0x60000.
Proof.
  unfold layer.
  destruct (layer_bits h) as [E | [E | [E | E]]]; rewrite E;
    split; intros H; try reflexivity; discriminate H.
Qed.

Lemma layer_2_bits (h : Z) : layer h = 2 <-> Z.land h 0x60000 = 0x40000.
Proof.
  unfold layer.
  destruct (layer_bits h) as [E | [E | [E | E]]]; rewrite E;
    split; intros H; try reflexivity; discriminate H.
Qed.

Lemma layer_3_bits (h : Z) : layer h = 3 <-> Z.land h 0x60000 = 0x20000.
Proof.
  unfold layer.
  destruct (layer_bits h) as [E | [E | [E | E]]]; rewrite E;
    split; intros H; try reflexivity; discriminate H.
Qed.

Lemma version_1_bits (h : Z) :
  (mpegVersion h == 1 # 1)%Q <-> Z.land h 0x180000 = 0x180000.
Proof.
  unfold mpegVersion.
  destruct (version_bits h) as [E | [E | [E | E]]]; rewrite E;
    split; intros H; try reflexivity; discriminate H.
Qed.

Lemma version_2_bits (h : Z) :
  (mpegVersion h == 2 # 1)%Q <-> Z.land h 0x180000 = 0x100000.
Proof.
  unfold mpegVersion.
  destruct (version_bits h) as [E | [E | [E | E]]]; rewrite E;
    split; intros H; try reflexivity; discriminate H.
Qed.

Lemma version_25_bits (h : Z) :
  (mpegVersion h == 5 # 2)%Q <-> Z.land h 0x180000 = 0x0.
Proof.
  unfold mpegVersion.
  destruct (version_bits h) as [E | [E | [E | E]]]; rewrite E;
    split; intros H; try reflexivity; discriminate H.
Qed.

Example sampelRate_mpeg1_44k : sampelRate 0xFFFB9000 = 44100.
Proof. reflexivity. Qed.

Example sampleCount_mpeg2_l3 : sampleCount 0xFFF38000 = 576.
Proof. reflexivity. Qed.

(** C4.  A header whose version bits ([0x180000]) select MPEG 2
    ([0x100000]) and whose sample rate index bits ([0xc00]) are zero has the
    sample rate 22050; the label without the [u] suffix is the label
    [0x100000] all the same. *)
Theorem sampelRate_mpeg2_index0 (h : Z) :
  Z.land h 0x180000 = 0x100000 ->
  Z.land h 0xc00 = 0x0 ->
  sampelRate h = 22050.
Proof.
  intros V R. unfold sampelRate. rewrite R, V. reflexivity.
Qed.

Lemma sampelRate_mpeg2_index0_witness :
  Z.land 0xFFF38000 0x180000 = 0x100000
  /\ Z.land 0xFFF38000 0xc00 = 0x0
  /\ sampelRate 0xFFF38000 = 22050.
Proof.
  split; [reflexivity | split; [reflexivity |]].
  apply (sampelRate_mpeg2_index0 0xFFF38000); reflexivity.
Defined.

(** C5.  The sample count is 384 for layer I, 1152 for layer II and for
    layer III of MPEG 1, and 576 for layer III of MPEG 2 and MPEG 2.5. *)
Theorem sampleCount_by_layer (h : Z) :
  (layer h = 1 -> sampleCount h = 384)
  /\ (layer h = 2 -> sampleCount h = 1152)
  /\ (layer h = 3 -> (mpegVersion h == 1 # 1)%Q -> sampleCount h = 1152)
  /\ (layer h = 3 -> (mpegVersion h == 2 # 1)%Q \/ (mpegVersion h == 5 # 2)%Q ->
      sampleCount h = 576).
Proof.
  unfold sampleCount. repeat split.
  - intros L. apply layer_1_bits in L. rewrite L. reflexivity.
  - intros L. apply layer_2_bits in L. rewrite L. reflexivity.
  - intros L V. apply layer_3_bits in L. apply version_1_bits in V.
    rewrite L, V. reflexivity.
  - intros L [V | V]; apply layer_3_bits in L.
    + apply version_2_bits in V. rewrite L, V. reflexivity.
    + apply version_25_bits in V. rewrite L, V. reflexivity.
Qed.

Lemma sampleCount_by_layer_witness :
  sampleCount 0xFFFF9000 = 384
  /\ sampleCount 0xFFFD9000 = 1152
  /\ sampleCount 0xFFFB9000 = 1152
  /\ sampleCount 0xFFF38000 = 576
  /\ sampleCount 0xFFE38000 = 576.
Proof.
  split; [| split; [| split; [| split]]].
  - destruct (sampleCount_by_layer 0xFFFF9000) as (H & _).
    apply H; reflexivity.
  - destruct (sampleCount_by_layer 0xFFFD9000) as (_ & H & _).
    apply H; reflexivity.
  - destruct (sampleCount_by_layer 0xFFFB9000) as (_ & _ & H & _).
    apply H; reflexivity.
  - destruct (sampleCount_by_layer 0xFFF38000) as (_ & _ & _ & H).
    apply H; [reflexivity | left; reflexivity].
  - destruct (sampleCount_by_layer 0xFFE38000) as (_ & _ & _ & H).
    apply H; [reflexivity | right; reflexivity].
Defined.

(** C10.  A frame that is not valid has the channel mode [Unspecifed],
    whatever its channel mode bits ([0xc0]) are; this holds for every
    definition of [isValid]. *)
Theorem channelMode_not_valid (members : InlineMembers) (f : Frame) :
  isValid f = false -> channelMode f = Unspecifed.
Proof.
  intros H. unfold channelMode. rewrite H. reflexivity.
Qed.

Lemma channelMode_not_valid_witness :
  Z.land 0x7FFB90C0 0xc0 = 0xc0
  /\ channelMode (set_header 0x7FFB90C0 emptyFrame) = Unspecifed.
Proof.
  split; [reflexivity |].
  apply (channelMode_not_valid specMembers (set_header 0x7FFB90C0 emptyFrame)).
  reflexivity.
Defined.

(** ** Track header parsing *)

Section TrackFacts.

Variables Status Fields : Type.
Variable invalidateStatus : Status -> Status.
Variable internalParseHeader : Exec (AbstractTrack.Track Status Fields) unit.

Let parse := AbstractTrack.parseHeader invalidateStatus internalParseHeader.
Let prepared := AbstractTrack.prepared (Fields := Fields) invalidateStatus.

Lemma parseHeader_unfold (t : AbstractTrack.Track Status Fields) :
  parse t =
  match internalParseHeader (prepared t) with
  | Returned _ t' => Returned tt (AbstractTrack.set_headerValid true t')
  | Thrown e t' => Thrown e t'
  end.
Proof.
  unfold parse, prepared, AbstractTrack.parseHeader, AbstractTrack.prepared,
    AbstractTrack.tryRethrow, bind, modify, get, zoom, Io.seekgBeg.
  cbn. destruct (internalParseHeader _) as [[] t' | e t']; reflexivity.
Qed.

(** C8.  [parseHeader] hands [internalParseHeader] a track whose stream
    stands at the start offset of the track, and its outcome does not depend
    on where the stream stood before the call. *)
Theorem parseHeader_seeks_startOffset (t : AbstractTrack.Track Status Fields) :
  Io.gpos (AbstractTrack.m_istream (prepared t)) = AbstractTrack.m_startOffset t
  /\ parse t =
     bind internalParseHeader
       (fun _ => modify (AbstractTrack.set_headerValid true)) (prepared t)
  /\ forall p : Z,
       parse (AbstractTrack.set_istream
                (Io.withPos (AbstractTrack.m_istream t) p) t) = parse t.
Proof.
  split; [reflexivity | split].
  - rewrite parseHeader_unfold. unfold bind, modify.
    destruct (internalParseHeader _) as [[] t' | e t']; reflexivity.
  - intros p. rewrite !parseHeader_unfold. reflexivity.
Qed.

(** C9.  Provided [internalParseHeader] does not set the flag itself on
    its way to an exception, the flag [m_headerValid] is true after
    [parseHeader] exactly when [internalParseHeader] returned; when it threw,
    [parseHeader] throws and the flag is false, whatever it was before. *)
Theorem parseHeader_headerValid
    (keeps : forall t, returns (internalParseHeader t) = false ->
       AbstractTrack.m_headerValid (finalState (internalParseHeader t))
       = AbstractTrack.m_headerValid t)
    (t : AbstractTrack.Track Status Fields) :
  (AbstractTrack.m_headerValid (finalState (parse t)) = true
   <-> returns (internalParseHeader (prepared t)) = true)
  /\ (returns (internalParseHeader (prepared t)) = false ->
      returns (parse t) = false
      /\ AbstractTrack.m_headerValid (finalState (parse t)) = false).
Proof.
  rewrite parseHeader_unfold.
  pose proof (keeps (prepared t)) as K.
  destruct (internalParseHeader (prepared t)) as [[] t' | e t']; cbn in *.
  - split; [split; reflexivity | discriminate].
  - rewrite (K eq_refl). split; [split; discriminate | split; reflexivity].
Qed.

End TrackFacts.

Lemma FrameTrack_keeps_flag (t : FrameTrack.Track) :
  returns (FrameTrack.internalParseHeader t) = false ->
  AbstractTrack.m_headerValid (finalState (FrameTrack.internalParseHeader t))
  = AbstractTrack.m_headerValid t.
Proof.
  intros _. unfold FrameTrack.internalParseHeader, zoom.
  destruct (parseHeader _); reflexivity.
Qed.

Example FrameTrack_parse_valid :
  let t := FrameTrack.make (repeat x00 10 ++ xingStream) 10 3 false in
  returns (FrameTrack.parseHeader t) = true
  /\ AbstractTrack.m_headerValid (finalState (FrameTrack.parseHeader t)) = true
  /\ Io.reads (AbstractTrack.m_istream (finalState (FrameTrack.parseHeader t)))
     = [(10, 4); (46, 8); (54, 4); (58, 4); (126, 4)].
Proof. vm_compute. repeat split. Qed.

(** A track whose previous parse had succeeded meets a header without the
    sync word: the call throws and leaves the flag cleared. *)
Lemma parseHeader_headerValid_witness :
  let t := FrameTrack.make (plainStream x00 x00 x00 x00) 0 7 true in
  returns (FrameTrack.internalParseHeader
             (AbstractTrack.prepared (fun st => st) t)) = false
  /\ returns (FrameTrack.parseHeader t) = false
  /\ AbstractTrack.m_headerValid (finalState (FrameTrack.parseHeader t)) = false.
Proof.
  intros t.
  assert (H : returns (FrameTrack.internalParseHeader
                         (AbstractTrack.prepared (fun st => st) t)) = false)
    by reflexivity.
  split; [exact H |].
  exact (proj2 (parseHeader_headerValid unit Frame (fun st => st)
                  FrameTrack.internalParseHeader FrameTrack_keeps_flag t) H).
Defined.

(** ** Reading from the stream *)

Lemma bytesAt_some (bs : list byte) (p : Z) (n : nat) :
  0 <= p -> p + Z.of_nat n <= Z.of_nat (length bs) ->
  Io.bytesAt bs p n = Some (firstn n (skipn (Z.to_nat p) bs)).
Proof.
  intros Hp Hn. unfold Io.bytesAt.
  destruct (Z.leb_spec 0 p); [| lia].
  destruct (Z.leb_spec (p + Z.of_nat n) (Z.of_nat (length bs))); [| lia].
  reflexivity.
Qed.

Lemma bytesAt_none (bs : list byte) (p : Z) (n : nat) :
  Io.bytesAt bs p n = None ->
  p < 0 \/ Z.of_nat (length bs) < p + Z.of_nat n.
Proof.
  unfold Io.bytesAt.
  destruct (Z.leb_spec 0 p); [| left; lia].
  destruct (Z.leb_spec (p + Z.of_nat n) (Z.of_nat (length bs)));
    [discriminate | right; lia].
Qed.

Lemma bytesAt_inside (bs : list byte) (p q : Z) (n m : nat) :
  Io.bytesAt bs p n <> None ->
  p <= q -> q + Z.of_nat m <= p + Z.of_nat n ->
  Io.bytesAt bs q m = Some (firstn m (skipn (Z.to_nat q) bs)).
Proof.
  intros H Hq Hm.
  destruct (Io.bytesAt bs q m) eqn:E.
  - unfold Io.bytesAt in E.
    destruct ((0 <=? q) && _); congruence.
  - exfalso. apply H.
    destruct (Io.bytesAt bs p n) eqn:E'; [| reflexivity].
    apply bytesAt_none in E.
    unfold Io.bytesAt in E'.
    destruct (Z.leb_spec 0 p); [| discriminate].
    destruct (Z.leb_spec (p + Z.of_nat n) (Z.of_nat (length bs)));
      [lia | discriminate].
Qed.

(** Splits on every [match] of the goal, innermost scrutinee first. *)
Ltac split_matches :=
  repeat match goal with
         | |- context [match ?x with _ => _ end] =>
             lazymatch x with
             | context [match _ with _ => _ end] => fail
             | _ => destruct x eqn:?
             end; cbn -[Z.testbit]
         end.

Ltac extend_reads :=
  first [ exists []; symmetry; apply app_nil_r
        | repeat rewrite <- app_assoc; eexists; reflexivity ].

Section ParseFacts.

Import Observe.

Context {members : InlineMembers}.

(** The first two reads of [parseHeader], when the stream holds them. *)
Lemma parseHeader_prefix (env : Env) (c1 c2 : list byte) :
  let p := Io.gpos (stream env) in
  Io.bytesAt (Io.content (stream env)) p 4 = Some c1 ->
  Io.bytesAt (Io.content (stream env)) (p + 36) 8 = Some c2 ->
  parseHeader env
  = afterSideData (sideDataRead env (Io.beValue c1) (Io.beValue c2)).
Proof.
  intros p H1 H2.
  unfold parseHeader, afterSideData, sideDataRead, bind, onStream, zoom,
    assign, modify, Io.readUInt32BE, Io.readUInt64BE, Io.readBE, Io.seekgCur,
    Io.withPos, m_xingHeaderOffset.
  cbn. fold p. rewrite H1. cbn.
  replace (p + 4 + 32) with (p + 36) by lia.
  rewrite H2. cbn.
  replace (p + 36 + 8) with (p + 44) by lia.
  rewrite <- app_assoc. reflexivity.
Qed.

Lemma parseHeader_short_header (env : Env) :
  Io.bytesAt (Io.content (stream env)) (Io.gpos (stream env)) 4 = None ->
  parseHeader env = Thrown IosFailure env.
Proof.
  intros H.
  unfold parseHeader, bind, onStream, zoom, Io.readUInt32BE, Io.readBE.
  rewrite H. destruct env as [f [c g r]]. reflexivity.
Qed.

Lemma parseHeader_short_side_data (env : Env) (c1 : list byte) :
  let p := Io.gpos (stream env) in
  Io.bytesAt (Io.content (stream env)) p 4 = Some c1 ->
  Io.bytesAt (Io.content (stream env)) (p + 36) 8 = None ->
  throws IosFailure (parseHeader env) = true.
Proof.
  intros p H1 H2.
  unfold parseHeader, bind, onStream, zoom, assign, modify,
    Io.readUInt32BE, Io.readUInt64BE, Io.readBE, Io.seekgCur, Io.withPos,
    m_xingHeaderOffset.
  cbn. fold p. rewrite H1. cbn.
  replace (p + 4 + 32) with (p + 36) by lia.
  rewrite H2. reflexivity.
Qed.

(** The guarded block reads and skips, and stores into the three Xing
    fields only; it throws nothing but the failure of a read. *)
Lemma parseXingFields_frame (env : Env) :
  let out := parseXingFields env in
  throws InvalidDataException out = false
  /\ m_header (this (finalState out)) = m_header (this env)
  /\ m_xingHeader (this (finalState out)) = m_xingHeader (this env)
  /\ m_xingHeaderFlags (this (finalState out)) = m_xingHeaderFlags (this env)
  /\ exists rest,
       Io.reads (stream (finalState out)) = Io.reads (stream env) ++ rest.
Proof.
  unfold parseXingFields, bind, self, when, ret, onStream, zoom, assign,
    modify, Io.readUInt32BE, Io.readBE, Io.seekgCur, Io.withPos.
  cbn. split_matches; repeat split; cbn; extend_reads.
Qed.

Lemma afterSideData_outcome (env : Env) :
  let out := afterSideData env in
  let f := this (finalState out) in
  m_header f = m_header (this env)
  /\ m_xingHeader f = m_xingHeader (this env)
  /\ (exists rest,
        Io.reads (stream (finalState out)) = Io.reads (stream env) ++ rest)
  /\ (throws IosFailure out = false ->
      (throws InvalidDataException out = true <-> isValid f = false)
      /\ (isValid f = true -> returns out = true)).
Proof.
  unfold afterSideData, bind, self, when.
  destruct (isXingHeaderAvailable (this env)).
  - destruct (parseXingFields_frame env) as (T & H & X & _ & R).
    destruct (parseXingFields env) as [[] s | e s]; cbn in *.
    + destruct (isValid (this s)) eqn:V; cbn; rewrite ?V;
        repeat split; auto; discriminate.
    + destruct e; [discriminate T |].
      repeat split; auto; discriminate.
  - unfold ret at 1. cbn.
    destruct (isValid (this env)) eqn:V; cbn; rewrite ?V;
      repeat split; auto; try discriminate; exists []; symmetry;
      apply app_nil_r.
Qed.

(** A call that does not end in a failed read has stored the header word
    read, and throws [InvalidDataException] or returns according to
    [isValid] on the frame it leaves. *)
Lemma parseHeader_validity (env : Env) :
  let out := parseHeader env in
  let f := this (finalState out) in
  throws IosFailure out = false ->
  (exists c,
     Io.bytesAt (Io.content (stream env)) (Io.gpos (stream env)) 4 = Some c
     /\ m_header f = Io.beValue c)
  /\ (throws InvalidDataException out = true <-> isValid f = false)
  /\ (isValid f = true -> returns out = true).
Proof.
  intros out f Hio. subst out f.
  destruct (Io.bytesAt (Io.content (stream env)) (Io.gpos (stream env)) 4)
    as [c1 |] eqn:H1.
  2:{ rewrite (parseHeader_short_header env H1) in Hio. discriminate Hio. }
  destruct (Io.bytesAt (Io.content (stream env)) (Io.gpos (stream env) + 36) 8)
    as [c2 |] eqn:H2.
  2:{ rewrite (parseHeader_short_side_data env c1 H1 H2) in Hio.
      discriminate Hio. }
  rewrite (parseHeader_prefix env c1 c2 H1 H2) in *.
  destruct (afterSideData_outcome
              (sideDataRead env (Io.beValue c1) (Io.beValue c2)))
    as (Hh & _ & _ & Hv).
  destruct (Hv Hio) as (Hiff & Hret).
  split; [exists c1; split; [reflexivity | exact Hh] |].
  split; [exact Hiff | exact Hret].
Qed.

(** C6.  Provided [isValid] demands the sync word, a call of
    [parseHeader] that does not end in a failed read throws
    [InvalidDataException] exactly when the frame holding the header word
    read is not valid; a header word without the eleven sync bits is
    rejected, and for a valid frame the call returns. *)
Theorem parseHeader_invalid_data_iff
    (sync : forall f, isValid f = true -> Z.land (m_header f) m_sync = m_sync)
    (env : Env) :
  let out := parseHeader env in
  let f := this (finalState out) in
  throws IosFailure out = false ->
  (exists c,
     Io.bytesAt (Io.content (stream env)) (Io.gpos (stream env)) 4 = Some c
     /\ m_header f = Io.beValue c)
  /\ (throws InvalidDataException out = true <-> isValid f = false)
  /\ (isValid f = true -> returns out = true)
  /\ (Z.land (m_header f) m_sync <> m_sync ->
      throws InvalidDataException out = true).
Proof.
  intros out f Hio.
  destruct (parseHeader_validity env Hio) as (Hread & Hiff & Hret).
  fold out in Hread, Hiff, Hret. fold f in Hread, Hiff, Hret.
  split; [exact Hread |]. split; [exact Hiff |]. split; [exact Hret |].
  intros Hs. apply Hiff.
  destruct (isValid f) eqn:V; [| reflexivity].
  elim Hs. apply sync. exact V.
Qed.

(** C3, as the code has it.  When the stream holds the 44 bytes from the
    frame start on, [parseHeader] reads the header word at the frame start
    and the side-data word at [m_xingHeaderOffset] = 0x24 bytes after it,
    whatever the header word is. *)
Theorem sideData_at_fixed_offset (env : Env) :
  let p := Io.gpos (stream env) in
  let out := parseHeader env in
  Io.bytesAt (Io.content (stream env)) p 44 <> None ->
  (exists rest,
     Io.reads (stream (finalState out))
     = Io.reads (stream env) ++ (p, 4) :: (p + 0x24, 8) :: rest)
  /\ (exists c,
        Io.bytesAt (Io.content (stream env)) (p + 0x24) 8 = Some c
        /\ m_xingHeader (this (finalState out)) = Io.beValue c).
Proof.
  intros p out H. subst out.
  pose proof (bytesAt_inside _ p p 44 4 H ltac:(lia) ltac:(lia)) as H1.
  pose proof (bytesAt_inside _ p (p + 36) 44 8 H ltac:(lia) ltac:(lia)) as H2.
  rewrite (parseHeader_prefix env _ _ H1 H2).
  destruct (afterSideData_outcome
              (sideDataRead env (Io.beValue (firstn 4 (skipn (Z.to_nat p)
                                   (Io.content (stream env)))))
                 (Io.beValue (firstn 8 (skipn (Z.to_nat (p + 36))
                                   (Io.content (stream env)))))))
    as (_ & Hx & (rest & Hr) & _).
  split.
  - exists rest. rewrite Hr. cbn. rewrite <- app_assoc. reflexivity.
  - eexists. split; [exact H2 | exact Hx].
Qed.

End ParseFacts.

Lemma specIsValid_sync (f : Frame) :
  isValid f = true -> Z.land (m_header f) m_sync = m_sync.
Proof.
  cbn. unfold specIsValid. intros H.
  apply andb_true_iff in H. destruct H as [H _].
  apply Z.eqb_eq. exact H.
Qed.

(** A header word without the sync bits is rejected; the same word with them
    is accepted. *)
Lemma parseHeader_invalid_data_iff_witness :
  throws InvalidDataException (Observe.parsed (plainStream x7f xfb x90 x00)) = true
  /\ returns (Observe.parsed (plainStream xff xfb x90 x00)) = true.
Proof.
  split.
  - apply (parseHeader_invalid_data_iff specIsValid_sync
             {| this := emptyFrame;
                stream := Io.open (plainStream x7f xfb x90 x00) |});
      [reflexivity | vm_compute; discriminate].
  - apply (parseHeader_invalid_data_iff specIsValid_sync
             {| this := emptyFrame;
                stream := Io.open (plainStream xff xfb x90 x00) |});
      reflexivity.
Defined.

Lemma sideData_at_fixed_offset_witness :
  exists rest,
    Io.reads (stream (finalState (Observe.parsed xingStream)))
    = [] ++ (0, 4) :: (0 + 0x24, 8) :: rest.
Proof.
  apply (sideData_at_fixed_offset
           {| this := emptyFrame; stream := Io.open xingStream |}).
  vm_compute. discriminate.
Defined.

(** C3, as the claim has it, fails: an MPEG 1 stereo header and an MPEG 2
    single-channel header differ in version and in channel mode, and the side
    data of both is looked for at offset 36. *)
Lemma sideData_offset_not_by_version_and_mode :
  ~ (forall bs1 bs2 : list byte,
       let f1 := this (finalState (Observe.parsed bs1)) in
       let f2 := this (finalState (Observe.parsed bs2)) in
       returns (Observe.parsed bs1) = true ->
       returns (Observe.parsed bs2) = true ->
       ~ (mpegVersion (m_header f1) == mpegVersion (m_header f2))%Q
       \/ channelMode f1 <> channelMode f2 ->
       Observe.sideDataOffset bs1 <> Observe.sideDataOffset bs2).
Proof.
  intros H.
  apply (H (plainStream xff xfb x90 x00) (plainStream xff xf3 x90 xc0));
    try reflexivity.
  left. vm_compute. discriminate.
Qed.

Example sideData_offsets :
  Observe.sideDataOffset (plainStream xff xfb x90 x00) = Some 36
  /\ Observe.sideDataOffset (plainStream xff xf3 x90 xc0) = Some 36
  /\ channelMode (this (finalState (Observe.parsed (plainStream xff xfb x90 x00))))
     = Stereo
  /\ channelMode (this (finalState (Observe.parsed (plainStream xff xf3 x90 xc0))))
     = SingleChannel.
Proof. vm_compute. repeat split. Qed.

(** ** The Xing fields *)

(** With the flag tests of the specification, the guarded block reads the
    frame count, the byte count and the quality indicator in this order,
    each when its flag is set, and moves on by 64 bytes when the flag of the
    table of contents is set. *)
Lemma parseXingFields_layout (env : Env) :
  let flag k := Z.testbit (m_xingHeaderFlags (this env)) k in
  let p := Io.gpos (stream env) in
  let q1 := if flag 0 then p + 4 else p in
  let q2 := if flag 1 then q1 + 4 else q1 in
  let q3 := if flag 2 then q2 + 64 else q2 in
  let q4 := if flag 3 then q3 + 4 else q3 in
  let out := parseXingFields env in
  returns out = true ->
  Io.gpos (stream (finalState out)) = q4
  /\ Io.reads (stream (finalState out))
     = Io.reads (stream env)
       ++ (if flag 0 then [(p, 4)] else [])
       ++ (if flag 1 then [(q1, 4)] else [])
       ++ (if flag 3 then [(q3, 4)] else []).
Proof.
  unfold parseXingFields, bind, self, when, ret, onStream, zoom, assign,
    modify, Io.readUInt32BE, Io.readBE, Io.seekgCur, Io.withPos.
  cbn -[Z.testbit]. unfold specXingFlag.
  split_matches; intros H; try discriminate H;
    rewrite <- ?app_assoc, ?app_nil_r; split; reflexivity.
Qed.

(** C2, on the code.  A frame with a [Xing] tag whose flag word announces
    all four fields: the frame count is read at 44, the byte count at 48, and
    the quality indicator at 116, that is 64 bytes after the byte count and
    inside the table of contents, which spans the hundred bytes from 52 on;
    the value stored is taken from the table, the indicator at 152 is not
    reached. *)
Theorem xing_toc_skipped_by_64 :
  let out := Observe.parsed xingStream in
  returns out = true
  /\ Io.reads (stream (finalState out))
     = [(0, 4); (36, 8); (44, 4); (48, 4); (116, 4)]
  /\ Io.gpos (stream (finalState out)) = 120
  /\ m_xingQualityIndicator (this (finalState out)) = 0x01010101
  /\ Io.bytesAt xingStream 52 100 = Some (repeat x01 100)
  /\ Io.bytesAt xingStream 152 4 = Some [x00; x00; x00; x50].
Proof. vm_compute. repeat split. Qed.

(** ** Bitrates *)





(** ** The frame size *)

Lemma cases_In (b sr sc : Z) :
  In b SizeTable.bitrates -> In sr SizeTable.sampleRates ->
  In sc SizeTable.sampleCounts ->
  In (b, (sr, sc)) SizeTable.cases.
Proof.
  intros Hb Hsr Hsc. unfold SizeTable.cases.
  apply in_prod; [exact Hb |].
  apply in_prod; [exact Hsr | exact Hsc].
Qed.

Lemma paddings_In (p : Z) : 0 <= p <= 4 -> In p SizeTable.paddings.
Proof.
  intros H.
  assert (C : p = 0 \/ p = 1 \/ p = 2 \/ p = 3 \/ p = 4) by lia.
  unfold SizeTable.paddings, In. intuition.
Qed.

Lemma forallb_In {A : Type} (f : A -> bool) (l : list A) (x : A) :
  forallb f l = true -> In x l -> f x = true.
Proof. intros H. apply forallb_forall. exact H. Qed.

Lemma cases_exact : forallb SizeTable.check SizeTable.cases = true.
Proof. vm_compute. reflexivity. Qed.

(** For a bitrate of the table, on the sample rates and sample counts of the
    decoders and for a padding up to 4, the rounding of the [double]
    operations does not reach the integer part of the result. *)
Lemma sizeExpr_exact (b sr sc p : Z) :
  In b SizeTable.bitrates -> In sr SizeTable.sampleRates ->
  In sc SizeTable.sampleCounts -> 0 <= p <= 4 ->
  sizeExpr b sr sc p = Some (128 * b * sc / sr + p).
Proof.
  intros Hb Hsr Hsc Hp.
  pose proof (forallb_In SizeTable.check SizeTable.cases (b, (sr, sc))
                cases_exact (cases_In b sr sc Hb Hsr Hsc)) as A.
  unfold SizeTable.check in A.
  apply forallb_In with (x := p) in A; [| apply paddings_In; exact Hp].
  unfold SizeTable.exact in A. unfold sizeExpr.
  destruct (Double.toUInt32 _) as [v |]; [| discriminate A].
  apply Z.eqb_eq in A. rewrite A. reflexivity.
Qed.

Ltac in_list := cbn; repeat (first [left; reflexivity | right]).

Lemma sampelRate_values (h : Z) :
  sampelRate h <> 0 -> In (sampelRate h) SizeTable.sampleRates.
Proof.
  unfold sampelRate.
  destruct (version_bits h) as [V | [V | [V | V]]];
    destruct (rate_bits h) as [R | [R | [R | R]]];
    rewrite R, ?V; intros H; try (elim H; reflexivity); in_list.
Qed.

Lemma sampleCount_values (h : Z) :
  layer h <> 0 -> sampelRate h <> 0 ->
  In (sampleCount h) SizeTable.sampleCounts.
Proof.
  unfold layer, sampelRate, sampleCount.
  destruct (layer_bits h) as [E | [E | [E | E]]];
    destruct (version_bits h) as [V | [V | [V | V]]];
    destruct (rate_bits h) as [R | [R | [R | R]]];
    rewrite E, R, ?V; intros HL HR;
    try (elim HL; reflexivity); try (elim HR; reflexivity); in_list.
Qed.

Section SizeFacts.

Context {members : InlineMembers}.

Lemma size_unknown_layer (f : Frame) :
  layer (m_header f) = 0 -> size f = Some 0.
Proof.
  unfold layer, size. cbv zeta.
  destruct (layer_bits (m_header f)) as [E | [E | [E | E]]]; rewrite E;
    intros H; try discriminate H; reflexivity.
Qed.

Lemma size_known_layer (f : Frame) :
  layer (m_header f) <> 0 ->
  size f = sizeExpr (bitrate f) (sampelRate (m_header f))
             (sampleCount (m_header f)) (paddingSize f).
Proof.
  unfold layer, size. cbv zeta.
  destruct (layer_bits (m_header f)) as [E | [E | [E | E]]]; rewrite E;
    intros H; try (elim H; reflexivity); reflexivity.
Qed.

(** C1, as the code has it.  For a frame of a known layer and sample rate,
    with a bitrate of the table and a padding size up to 4, [size()] is the
    integer part of [128 * bitrate * sampleCount / sampelRate] plus the
    padding size. *)
Theorem size_formula (f : Frame) :
  let h := m_header f in
  layer h <> 0 -> sampelRate h <> 0 ->
  In (bitrate f) (concat (concat m_bitrateTable)) ->
  0 <= paddingSize f <= 4 ->
  size f
  = Some (128 * bitrate f * sampleCount h / sampelRate h + paddingSize f).
Proof.
  intros h HL HR Hb Hp. subst h.
  rewrite (size_known_layer f HL).
  apply sizeExpr_exact; try assumption.
  - apply sampelRate_values. exact HR.
  - apply sampleCount_values; assumption.
Qed.

End SizeFacts.

(** An MPEG 2 layer III frame, 64 kbit/s at 22050 Hz: 213 bytes, which is
    128 * 64 * 576 / 22050. *)
Lemma size_formula_witness :
  size (set_header 0xFFF38000 emptyFrame) = Some 213.
Proof.
  apply (size_formula (members := specMembers)
           (set_header 0xFFF38000 emptyFrame));
    [vm_compute; discriminate | vm_compute; discriminate
    | in_list | vm_compute; split; discriminate].
Defined.

(** C1, as the claim has it, fails: whatever the unit of the bitrate, the
    formulas of the specification do not give the size of both an MPEG 1
    layer III frame (128 kbit/s, 44100 Hz: 427 bytes) and an MPEG 2 layer III
    frame (64 kbit/s, 22050 Hz: 213 bytes). *)
Lemma size_not_spec_formula :
  ~ exists unit : Z,
      forall f : Frame, isValid f = true -> size f = Some (specFrameSize unit f).
Proof.
  intros (unit & H).
  pose proof (H (set_header 0xFFFB9000 emptyFrame) eq_refl) as H1.
  pose proof (H (set_header 0xFFF38000 emptyFrame) eq_refl) as H2.
  assert (E1 : size (set_header 0xFFFB9000 emptyFrame) = Some 427)
    by (vm_compute; reflexivity).
  assert (E2 : size (set_header 0xFFF38000 emptyFrame) = Some 213)
    by (vm_compute; reflexivity).
  rewrite E1 in H1. rewrite E2 in H2.
  unfold specFrameSize in H1, H2.
  change (layer (m_header (set_header 0xFFFB9000 emptyFrame)) =? 1)
    with false in H1.
  change (layer (m_header (set_header 0xFFF38000 emptyFrame)) =? 1)
    with false in H2.
  change (bitrate (set_header 0xFFFB9000 emptyFrame)) with 128 in H1.
  change (bitrate (set_header 0xFFF38000 emptyFrame)) with 64 in H2.
  change (sampelRate (m_header (set_header 0xFFFB9000 emptyFrame)))
    with 44100 in H1.
  change (sampelRate (m_header (set_header 0xFFF38000 emptyFrame)))
    with 22050 in H2.
  change (paddingSize (set_header 0xFFFB9000 emptyFrame)) with 0 in H1.
  change (paddingSize (set_header 0xFFF38000 emptyFrame)) with 0 in H2.
  assert (Q1 : 144 * (unit * 128) / 44100 + 0 = 427) by congruence.
  assert (Q2 : 144 * (unit * 64) / 22050 + 0 = 213) by congruence.
  clear H H1 H2 E1 E2.
  pose proof (Z.div_mod (144 * (unit * 128)) 44100 ltac:(lia)) as D1.
  pose proof (Z.mod_pos_bound (144 * (unit * 128)) 44100 ltac:(lia)) as B1.
  pose proof (Z.div_mod (144 * (unit * 64)) 22050 ltac:(lia)) as D2.
  pose proof (Z.mod_pos_bound (144 * (unit * 64)) 22050 ltac:(lia)) as B2.
  lia.
Qed.

(** * Further properties of the decoders *)

Lemma mode_bits (h : Z) :
  Z.land h 0xc0 = 0x0 \/ Z.land h 0xc0 = 0x40
  \/ Z.land h 0xc0 = 0x80 \/ Z.land h 0xc0 = 0xc0.
Proof. apply (Bits.field2_cases h 6). lia. Qed.

(** X1.  The sample rate is unknown (0) exactly for the reserved sample rate
    index and for the reserved version bits. *)
Theorem sampelRate_zero_iff (h : Z) :
  sampelRate h = 0
  <-> Z.land h 0xc00 = 0xc00 \/ (mpegVersion h == 0 # 1)%Q.
Proof.
  unfold sampelRate, mpegVersion.
  destruct (version_bits h) as [V | [V | [V | V]]];
    destruct (rate_bits h) as [R | [R | [R | R]]];
    rewrite R, ?V; split;
    try (intros H; try discriminate H;
         first [left; reflexivity | right; reflexivity]);
    try (intros [H | H]; try reflexivity; try discriminate H;
         vm_compute in H; discriminate H).
Qed.

(** X2.  At one sample rate index, the rate of MPEG 1 is twice that of
    MPEG 2, which is twice that of MPEG 2.5. *)
Theorem sampelRate_halves_by_version (h1 h2 h25 : Z) :
  (mpegVersion h1 == 1 # 1)%Q ->
  (mpegVersion h2 == 2 # 1)%Q ->
  (mpegVersion h25 == 5 # 2)%Q ->
  Z.land h1 0xc00 = Z.land h2 0xc00 ->
  Z.land h2 0xc00 = Z.land h25 0xc00 ->
  sampelRate h1 = 2 * sampelRate h2 /\ sampelRate h2 = 2 * sampelRate h25.
Proof.
  intros V1 V2 V25 E1 E2.
  apply version_1_bits in V1. apply version_2_bits in V2.
  apply version_25_bits in V25.
  unfold sampelRate. rewrite V1, V2, V25, E1, E2.
  destruct (rate_bits h25) as [R | [R | [R | R]]]; rewrite R;
    split; reflexivity.
Qed.

Lemma sampelRate_halves_by_version_witness :
  sampelRate 0xFFFB9400 = 2 * sampelRate 0xFFF39400
  /\ sampelRate 0xFFF39400 = 2 * sampelRate 0xFFE39400.
Proof.
  apply (sampelRate_halves_by_version 0xFFFB9400 0xFFF39400 0xFFE39400);
    reflexivity.
Defined.

(** X3.  The sample count is unknown (0) exactly for an unknown layer and
    for layer III with the reserved version bits. *)
Theorem sampleCount_zero_iff (h : Z) :
  sampleCount h = 0
  <-> layer h = 0 \/ (layer h = 3 /\ (mpegVersion h == 0 # 1)%Q).
Proof.
  unfold sampleCount, layer, mpegVersion.
  destruct (layer_bits h) as [E | [E | [E | E]]];
    destruct (version_bits h) as [V | [V | [V | V]]];
    rewrite E, ?V; split;
    try (intros H; try discriminate H;
         first [left; reflexivity | right; split; reflexivity]);
    try (intros [H | [H H']]; try reflexivity; try discriminate H;
         vm_compute in H'; discriminate H').
Qed.

(** X4.  For valid frames the channel mode is known, and two valid frames
    have the same channel mode exactly when their channel mode bits ([0xc0])
    agree; this holds for every definition of [isValid]. *)
Theorem channelMode_valid (members : InlineMembers) (f g : Frame) :
  isValid f = true -> isValid g = true ->
  channelMode f <> Unspecifed
  /\ (channelMode f = channelMode g
      <-> Z.land (m_header f) 0xc0 = Z.land (m_header g) 0xc0).
Proof.
  intros Vf Vg. unfold channelMode. rewrite Vf, Vg.
  destruct (mode_bits (m_header f)) as [E | [E | [E | E]]];
    destruct (mode_bits (m_header g)) as [G | [G | [G | G]]];
    rewrite E, G; split; try discriminate;
    split; intros H; try reflexivity; discriminate H.
Qed.

Lemma channelMode_valid_witness :
  channelMode (set_header 0xFFFB9040 emptyFrame) <> Unspecifed
  /\ (channelMode (set_header 0xFFFB9040 emptyFrame)
      = channelMode (set_header 0xFFF38040 emptyFrame)
      <-> Z.land 0xFFFB9040 0xc0 = Z.land 0xFFF38040 0xc0).
Proof.
  apply (channelMode_valid specMembers
           (set_header 0xFFFB9040 emptyFrame)
           (set_header 0xFFF38040 emptyFrame)); reflexivity.
Defined.

(** ** The frame size at its edges *)

Lemma div_by_zero (x : spec_float) : notFinite (Double.div x (Double.ofZ 0)).
Proof. destruct x as [s | s | | s m e]; exact I. Qed.

Lemma mul_notFinite (x y : spec_float) :
  notFinite x -> notFinite (Double.mul x y).
Proof.
  destruct x as [s | s | | s m e]; intros H; try elim H;
    destruct y as [t | t | | t n d]; exact I.
Qed.

Lemma add_notFinite (x y : spec_float) :
  notFinite x -> notFinite (Double.add x y).
Proof.
  destruct x as [s | s | | s m e]; intros H; try elim H;
    destruct y as [t | t | | t n d]; try exact I;
    destruct s, t; exact I.
Qed.

Lemma toUInt32_notFinite (x : spec_float) :
  notFinite x -> Double.toUInt32 x = None.
Proof. destruct x; intros H; try elim H; reflexivity. Qed.

Lemma sizeExpr_zero_rate (b sc p : Z) : sizeExpr b 0 sc p = None.
Proof.
  unfold sizeExpr, scaled.
  apply toUInt32_notFinite, add_notFinite, mul_notFinite, div_by_zero.
Qed.

(** X5.  When the sample rate is unknown, [size()] is 0 for an unknown
    layer, where nothing is computed, and is otherwise not defined: the
    division by the sample rate 0 yields an infinity or a NaN, which has no
    conversion to [uint32].  This holds whatever [bitrate()] and
    [paddingSize()] return. *)
Theorem size_without_sample_rate (members : InlineMembers) (f : Frame) :
  sampelRate (m_header f) = 0 ->
  size f = if layer (m_header f) =? 0 then Some 0 else None.
Proof.
  intros R.
  destruct (Z.eqb_spec (layer (m_header f)) 0) as [L | L].
  - apply size_unknown_layer. exact L.
  - rewrite (size_known_layer f L), R. apply sizeExpr_zero_rate.
Qed.

Lemma size_without_sample_rate_witness :
  size (set_header 0xFFFB9C00 emptyFrame) = None
  /\ size (set_header 0xFFF99C00 emptyFrame) = Some 0.
Proof.
  split.
  - apply (size_without_sample_rate specMembers
             (set_header 0xFFFB9C00 emptyFrame)). reflexivity.
  - apply (size_without_sample_rate specMembers
             (set_header 0xFFF99C00 emptyFrame)). reflexivity.
Defined.

Lemma quotient_bounds :
  forallb (fun t : Z * (Z * Z) =>
             let '(b, (sr, sc)) := t in
             (b =? 0)
             || ((8 <=? 128 * b * sc / sr) && (128 * b * sc / sr <=? 8257)))
    SizeTable.cases = true.
Proof. vm_compute. reflexivity. Qed.

(** X6.  For a frame of a known layer and sample rate, with a nonzero
    bitrate of the table and a padding size up to 4, [size()] is defined and
    lies between 8 and 8261 bytes. *)
Theorem size_positive_bounded (members : InlineMembers) (f : Frame) :
  let h := m_header f in
  layer h <> 0 -> sampelRate h <> 0 ->
  In (bitrate f) (concat (concat m_bitrateTable)) -> bitrate f <> 0 ->
  0 <= paddingSize f <= 4 ->
  exists n, size f = Some n /\ 8 <= n <= 8261.
Proof.
  intros h HL HR Hb Hb0 Hp. subst h.
  pose proof (sampelRate_values _ HR) as Hsr.
  pose proof (sampleCount_values _ HL HR) as Hsc.
  rewrite (size_known_layer f HL).
  rewrite (sizeExpr_exact _ _ _ _ Hb Hsr Hsc Hp).
  eexists. split; [reflexivity |].
  pose proof (forallb_In _ _ _ quotient_bounds (cases_In _ _ _ Hb Hsr Hsc))
    as Q.
  cbv beta iota in Q.
  apply orb_true_iff in Q. destruct Q as [Q | Q].
  - apply Z.eqb_eq in Q. elim Hb0. exact Q.
  - apply andb_true_iff in Q. destruct Q as [Q1 Q2].
    apply Z.leb_le in Q1. apply Z.leb_le in Q2. lia.
Qed.

Lemma size_positive_bounded_witness :
  exists n, size (set_header 0xFFF38000 emptyFrame) = Some n /\ 8 <= n <= 8261.
Proof.
  apply (size_positive_bounded specMembers (set_header 0xFFF38000 emptyFrame));
    [vm_compute; discriminate | vm_compute; discriminate
    | in_list | vm_compute; discriminate | vm_compute; split; discriminate].
Defined.

(** * Further properties of [MpegAudioFrame::parseHeader] *)

Lemma bytesAt_some_inv (bs c : list byte) (p : Z) (n : nat) :
  Io.bytesAt bs p n = Some c ->
  0 <= p /\ p + Z.of_nat n <= Z.of_nat (length bs)
  /\ c = firstn n (skipn (Z.to_nat p) bs).
Proof.
  unfold Io.bytesAt.
  destruct (Z.leb_spec 0 p) as [Hp | Hp]; [| discriminate].
  destruct (Z.leb_spec (p + Z.of_nat n) (Z.of_nat (length bs))) as [Hn | Hn];
    [| discriminate].
  cbn. intros E. injection E as <-. repeat split; assumption.
Qed.

Lemma bytesAt_length (bs c : list byte) (p : Z) (n : nat) :
  Io.bytesAt bs p n = Some c -> length c = n.
Proof.
  intros H. apply bytesAt_some_inv in H. destruct H as (Hp & Hn & ->).
  rewrite length_firstn, length_skipn. lia.
Qed.

Lemma byte_bound (b : byte) : 0 <= Z.of_N (Byte.to_N b) < 256.
Proof.
  pose proof (Byte.to_N_bounded b) as H. lia.
Qed.

Lemma beValue_from (bs : list byte) (acc : Z) :
  fold_left (fun a b => a * 256 + Z.of_N (Byte.to_N b)) bs acc
  = acc * 256 ^ Z.of_nat (length bs) + Io.beValue bs.
Proof.
  unfold Io.beValue. revert acc.
  induction bs as [| b bs IH]; intros acc.
  - cbn. lia.
  - cbn [fold_left length]. rewrite IH, (IH (0 * 256 + _)).
    rewrite Nat2Z.inj_succ, Z.pow_succ_r by lia. ring.
Qed.

Lemma beValue_bound (bs : list byte) :
  0 <= Io.beValue bs < 256 ^ Z.of_nat (length bs).
Proof.
  induction bs as [| b bs IH].
  - cbn. lia.
  - unfold Io.beValue. cbn [fold_left length]. rewrite beValue_from.
    rewrite Nat2Z.inj_succ, Z.pow_succ_r by lia.
    pose proof (byte_bound b) as Hb.
    assert (0 < 256 ^ Z.of_nat (length bs)) by (apply Z.pow_pos_nonneg; lia).
    nia.
Qed.

Section MoreParseFacts.

Import Observe.

Context {members : InlineMembers}.

Lemma afterSideData_finalState (env : Env) :
  finalState (afterSideData env)
  = if isXingHeaderAvailable (this env)
    then finalState (parseXingFields env)
    else env.
Proof.
  unfold afterSideData, bind, self, when.
  destruct (isXingHeaderAvailable (this env)).
  - destruct (parseXingFields env) as [[] s | e s]; cbn;
      [destruct (isValid (this s)) |]; reflexivity.
  - unfold ret at 1. cbn. destruct (isValid (this env)); reflexivity.
Qed.

(** The guarded block moves the stream forward by 76 bytes at most, in three
    reads at most. *)
Lemma parseXingFields_span (env : Env) :
  let s := stream (finalState (parseXingFields env)) in
  Io.gpos (stream env) <= Io.gpos s <= Io.gpos (stream env) + 76
  /\ (length (Io.reads (stream env)) <= length (Io.reads s)
      <= length (Io.reads (stream env)) + 3)%nat.
Proof.
  unfold parseXingFields, bind, self, when, ret, onStream, zoom, assign,
    modify, Io.readUInt32BE, Io.readBE, Io.seekgCur, Io.withPos.
  cbn. split_matches; rewrite ?length_app; cbn; lia.
Qed.

(** X7.  On a stream that holds fewer than 44 bytes from the frame start
    on, [parseHeader] ends in the failure of a read, and so does not throw
    [InvalidDataException], whatever the header word is. *)
Theorem parseHeader_short_stream (env : Env) :
  Io.bytesAt (Io.content (stream env)) (Io.gpos (stream env)) 44 = None ->
  throws IosFailure (parseHeader env) = true
  /\ throws InvalidDataException (parseHeader env) = false.
Proof.
  intros H.
  assert (T : throws IosFailure (parseHeader env) = true).
  { destruct (Io.bytesAt (Io.content (stream env)) (Io.gpos (stream env)) 4)
      as [c1 |] eqn:H1.
    - apply (parseHeader_short_side_data env c1 H1).
      apply bytesAt_some_inv in H1. apply bytesAt_none in H.
      destruct (Io.bytesAt _ (Io.gpos (stream env) + 36) 8) as [c2 |] eqn:H2;
        [| reflexivity].
      apply bytesAt_some_inv in H2. cbn in *. lia.
    - rewrite (parseHeader_short_header env H1). reflexivity. }
  split; [exact T |].
  destruct (parseHeader env) as [a s | [] s]; cbn in *; congruence.
Qed.

(** X8.  When the side-data word read does not make the Xing header
    available, [parseHeader] has done its two reads only and stands 44 bytes
    after the frame start; the frame count, the byte count and the quality
    indicator are those the frame object held before the call. *)
Theorem parseHeader_without_xing (env : Env) (c1 c2 : list byte) :
  let p := Io.gpos (stream env) in
  let env1 := sideDataRead env (Io.beValue c1) (Io.beValue c2) in
  let final := finalState (parseHeader env) in
  Io.bytesAt (Io.content (stream env)) p 4 = Some c1 ->
  Io.bytesAt (Io.content (stream env)) (p + 36) 8 = Some c2 ->
  isXingHeaderAvailable (this env1) = false ->
  Io.gpos (stream final) = p + 44
  /\ Io.reads (stream final) = Io.reads (stream env) ++ [(p, 4); (p + 36, 8)]
  /\ m_xingFramefield (this final) = m_xingFramefield (this env)
  /\ m_xingBytesfield (this final) = m_xingBytesfield (this env)
  /\ m_xingQualityIndicator (this final) = m_xingQualityIndicator (this env).
Proof.
  intros p env1 final H1 H2 X. subst final.
  rewrite (parseHeader_prefix env c1 c2 H1 H2).
  rewrite afterSideData_finalState. fold env1. rewrite X.
  repeat split; reflexivity.
Qed.

(** X9.  When the stream holds the 44 bytes from the frame start on, the
    frame that [parseHeader] leaves, whether it returns or throws, has a
    header word below 2^32, a side-data word below 2^64, and as its flag word
    the lower 32 bits of the side-data word. *)
Theorem parseHeader_words (env : Env) :
  let f := this (finalState (parseHeader env)) in
  Io.bytesAt (Io.content (stream env)) (Io.gpos (stream env)) 44 <> None ->
  0 <= m_header f < 2 ^ 32
  /\ 0 <= m_xingHeader f < 2 ^ 64
  /\ m_xingHeaderFlags f = Z.land (m_xingHeader f) 0xffffffff
  /\ 0 <= m_xingHeaderFlags f < 2 ^ 32.
Proof.
  intros f H. subst f.
  set (p := Io.gpos (stream env)) in *.
  pose proof (bytesAt_inside _ p p 44 4 H ltac:(lia) ltac:(lia)) as H1.
  pose proof (bytesAt_inside _ p (p + 36) 44 8 H ltac:(lia) ltac:(lia)) as H2.
  set (c1 := firstn 4 (skipn (Z.to_nat p) (Io.content (stream env)))) in *.
  set (c2 := firstn 8 (skipn (Z.to_nat (p + 36)) (Io.content (stream env))))
    in *.
  rewrite (parseHeader_prefix env c1 c2 H1 H2).
  pose proof (beValue_bound c1) as B1.
  pose proof (beValue_bound c2) as B2.
  rewrite (bytesAt_length _ _ _ _ H1) in B1.
  rewrite (bytesAt_length _ _ _ _ H2) in B2.
  set (h := Io.beValue c1) in *. set (x := Io.beValue c2) in *.
  change (256 ^ Z.of_nat 4) with (2 ^ 32) in B1.
  change (256 ^ Z.of_nat 8) with (2 ^ 64) in B2.
  assert (F : forall e : Env,
             m_header (this e) = h -> m_xingHeader (this e) = x ->
             m_xingHeaderFlags (this e) = Z.land x 0xffffffff ->
             0 <= m_header (this e) < 2 ^ 32
             /\ 0 <= m_xingHeader (this e) < 2 ^ 64
             /\ m_xingHeaderFlags (this e)
                = Z.land (m_xingHeader (this e)) 0xffffffff
             /\ 0 <= m_xingHeaderFlags (this e) < 2 ^ 32).
  { intros e -> -> ->. repeat split; try lia.
    - apply Z.land_nonneg. lia.
    - change 0xffffffff with (Z.ones 32). rewrite Z.land_ones by lia.
      apply Z.mod_pos_bound. lia. }
  rewrite afterSideData_finalState.
  destruct (isXingHeaderAvailable _).
  - destruct (parseXingFields_frame (sideDataRead env h x))
      as (_ & Eh & Ex & Ef & _).
    cbv zeta in Eh, Ex, Ef. apply F; rewrite ?Eh, ?Ex, ?Ef; reflexivity.
  - apply F; reflexivity.
Qed.

(** X10.  When the stream holds the 44 bytes from the frame start on,
    [parseHeader] leaves the stream at least 44 bytes after the frame start,
    having done between two and five reads, whether it returns or throws. *)
Theorem parseHeader_span (env : Env) :
  let p := Io.gpos (stream env) in
  let s := stream (finalState (parseHeader env)) in
  Io.bytesAt (Io.content (stream env)) p 44 <> None ->
  p + 44 <= Io.gpos s
  /\ (length (Io.reads (stream env)) + 2 <= length (Io.reads s)
      <= length (Io.reads (stream env)) + 5)%nat.
Proof.
  intros p s H. subst s.
  pose proof (bytesAt_inside _ p p 44 4 H ltac:(lia) ltac:(lia)) as H1.
  pose proof (bytesAt_inside _ p (p + 36) 44 8 H ltac:(lia) ltac:(lia)) as H2.
  rewrite (parseHeader_prefix env _ _ H1 H2).
  rewrite afterSideData_finalState.
  destruct (isXingHeaderAvailable _).
  - match goal with
    | |- context [parseXingFields ?e] =>
        pose proof (parseXingFields_span e) as S
    end.
    cbn in S. rewrite length_app in S. cbn in S. fold p in S.
    cbn. lia.
  - cbn. rewrite length_app. cbn. fold p. lia.
Qed.

End MoreParseFacts.

Lemma parseHeader_short_stream_witness :
  throws IosFailure
    (parseHeader {| this := emptyFrame;
                    stream := Io.open (firstn 43 (plainStream xff xfb x90 x00)) |})
  = true.
Proof.
  apply (parseHeader_short_stream
           {| this := emptyFrame;
              stream := Io.open (firstn 43 (plainStream xff xfb x90 x00)) |}).
  reflexivity.
Defined.

Lemma parseHeader_words_witness :
  m_xingHeaderFlags (this (finalState (Observe.parsed xingStream)))
  = Z.land (m_xingHeader (this (finalState (Observe.parsed xingStream)))) 0xffffffff.
Proof.
  apply (parseHeader_words
           {| this := emptyFrame; stream := Io.open xingStream |}).
  vm_compute. discriminate.
Defined.

Lemma parseHeader_span_witness :
  (length (@nil (Z * Z)) + 2
   <= length (Io.reads (stream (finalState (Observe.parsed xingStream))))
   <= length (@nil (Z * Z)) + 5)%nat.
Proof.
  apply (parseHeader_span
           {| this := emptyFrame; stream := Io.open xingStream |}).
  vm_compute. discriminate.
Defined.

(** A frame object that holds the frame count 7 of an earlier parse meets a
    frame without side data: the count stays. *)
Lemma parseHeader_without_xing_witness :
  let env := {| this := set_xingFramefield 7 emptyFrame;
                stream := Io.open (plainStream xff xfb x90 x00) |} in
  Io.gpos (stream (finalState (parseHeader env))) = 0 + 44
  /\ Io.reads (stream (finalState (parseHeader env)))
     = [] ++ [(0, 4); (0 + 36, 8)]
  /\ m_xingFramefield (this (finalState (parseHeader env))) = 7
  /\ m_xingBytesfield (this (finalState (parseHeader env))) = 0
  /\ m_xingQualityIndicator (this (finalState (parseHeader env))) = 0.
Proof.
  intros env.
  apply (parseHeader_without_xing env [xff; xfb; x90; x00] (repeat x00 8));
    reflexivity.
Defined.

(** * Further properties of [AbstractTrack] *)

(** X12.  The media type names are pairwise distinct, and the name is empty
    only for a media type that the switch does not list. *)
Theorem mediaTypeName_injective (a b : AbstractTrack.MediaType) :
  (AbstractTrack.mediaTypeName a = AbstractTrack.mediaTypeName b -> a = b)
  /\ (AbstractTrack.mediaTypeName a = String.EmptyString
      <-> a = AbstractTrack.Unlisted).
Proof.
  split.
  - destruct a, b; intros H; try reflexivity; discriminate H.
  - destruct a; split; intros H; try reflexivity; discriminate H.
Qed.

Section TrackStrings.

Local Open Scope string_scope.

Lemma append_length (s t : String.string) :
  String.length (String.append s t) = (String.length s + String.length t)%nat.
Proof.
  induction s as [| a s IH]; cbn; [reflexivity | rewrite IH; reflexivity].
Qed.

Lemma prefix_append (s t : String.string) :
  String.prefix s (String.append s t) = true.
Proof.
  induction s as [| a s IH]; cbn; [destruct t; reflexivity |].
  destruct (Ascii.ascii_dec a a) as [_ | N]; [exact IH | elim N; reflexivity].
Qed.

Lemma prefix_refl (s : String.string) : String.prefix s s = true.
Proof.
  induction s as [| a s IH]; cbn; [reflexivity |].
  destruct (Ascii.ascii_dec a a) as [_ | N]; [exact IH | elim N; reflexivity].
Qed.

Lemma prefix_trans_append (s u t : String.string) :
  String.prefix s u = true -> String.prefix s (String.append u t) = true.
Proof.
  revert u. induction s as [| a s IH]; intros u;
    [destruct (String.append u t); reflexivity |].
  destruct u as [| b u]; cbn; [discriminate |].
  destruct (Ascii.ascii_dec a b); [apply IH | discriminate].
Qed.

Lemma nonEmpty_false (s : String.string) :
  AbstractTrack.nonEmpty s = false <-> s = String.EmptyString.
Proof. destruct s; cbn; split; intros H; try reflexivity; discriminate H. Qed.

Lemma nonEmpty_length (s : String.string) :
  AbstractTrack.nonEmpty s = true -> (0 < String.length s)%nat.
Proof. destruct s; cbn; [discriminate | lia]. Qed.

(** X13.  A label starts with the identifier and the media type; it is no
    more than that exactly when the name is empty and the language is empty
    or [und]. *)
Theorem label_base (id : N) (m : AbstractTrack.MediaType)
    (name language : String.string) :
  let base :=
    String.append (String.append "ID: " (AbstractTrack.decimal id))
      (String.append ", type: " (AbstractTrack.mediaTypeName m)) in
  String.prefix base (AbstractTrack.label id m name language) = true
  /\ (AbstractTrack.label id m name language = base
      <-> name = String.EmptyString
          /\ (language = String.EmptyString \/ language = "und")).
Proof.
  intros base. unfold AbstractTrack.label. fold base. clearbody base.
  destruct (AbstractTrack.nonEmpty name) eqn:En;
    destruct (AbstractTrack.nonEmpty language) eqn:El;
    destruct (String.eqb_spec language "und") as [Eu | Eu]; cbn [andb negb];
    split;
    try solve [ first [ apply prefix_refl | apply prefix_append
                      | apply prefix_trans_append; apply prefix_append ] ];
    split.
  all: try solve [ intros H; exfalso; apply (f_equal String.length) in H;
                   rewrite ?append_length in H; cbn in H; lia ].
  all: try solve [ intros _; split;
                   [ apply nonEmpty_false; exact En
                   | first [ left; apply nonEmpty_false; exact El
                           | right; exact Eu ] ] ].
  all: intros (Hn & Hl);
    first [ reflexivity
          | solve [subst name; discriminate En]
          | solve [destruct Hl as [Hl | Hl];
                   [subst language; discriminate El | elim Eu; exact Hl]] ].
Qed.

(** X14.  [formatName()] and [formatAbbreviation()] hand out C strings, and
    fall back on the strings of the track: the abbreviation is empty exactly
    when the text of the abbreviation of the format and the text of
    [m_formatId] up to its first NUL are both empty; the name of a known
    format is its own; the name of a format that is not known is empty
    exactly when the text of [m_formatName] up to its first NUL is empty and,
    if [m_formatName] holds no character at all, so is the own name of the
    format.  A non-empty [m_formatName] that begins with NUL thus gives the
    empty name whatever the own name is. *)
Theorem format_fallbacks (abbr m_formatId builtinName m_formatName : String.string) :
  (AbstractTrack.formatAbbreviation abbr m_formatId = String.EmptyString
   <-> AbstractTrack.cstr abbr = String.EmptyString
       /\ AbstractTrack.cstr m_formatId = String.EmptyString)
  /\ (AbstractTrack.formatName false builtinName m_formatName = String.EmptyString
      <-> AbstractTrack.cstr m_formatName = String.EmptyString
          /\ (m_formatName = String.EmptyString ->
              AbstractTrack.cstr builtinName = String.EmptyString))
  /\ AbstractTrack.formatName true builtinName m_formatName
     = AbstractTrack.cstr builtinName
  /\ (forall rest,
        AbstractTrack.formatName false builtinName
          (String.String Ascii.zero rest) = String.EmptyString).
Proof.
  unfold AbstractTrack.formatAbbreviation, AbstractTrack.formatName.
  split; [| split; [| split; [reflexivity | reflexivity]]].
  - destruct (AbstractTrack.cstr abbr) as [| a abbr'] eqn:Ea; cbn.
    + destruct m_formatId as [| c rest]; cbn.
      * split; [intros _; split; reflexivity | reflexivity].
      * split; [intros H; split; [reflexivity | exact H] | intros [_ H]; exact H].
    + split; [discriminate | intros [H _]; discriminate H].
  - destruct m_formatName as [| c rest]; cbn [AbstractTrack.nonEmpty negb orb].
    + split.
      * intros H. split; [reflexivity | intros _; exact H].
      * intros [_ H]. apply H. reflexivity.
    + split.
      * intros H. split; [exact H | discriminate].
      * intros [H _]. exact H.
Qed.

End TrackStrings.
